(** * The llama.cpp JNI bridge (app/src/main/cpp/llama_bridge.cpp)

    A shallow embedding of the four JNI entry points of the bridge
    ([loadModel], [unloadModel], [chatCompletion], [chatCompletionStream])
    together with the part of the native library and of the JNI environment
    they touch, and the properties of the bridge stated over it.

    Layout: the native library and the process state; a small state-and-fault
    monad; the entry points; a reader for the JSON payloads; then the lemmas. *)

From Stdlib Require Import String Ascii ZArith List Lia Bool.
From stdpp Require Import base option gmap sets list strings.
Import ListNotations.
Local Open Scope string_scope.

(** ** Handles and the native library

    [llama_model *] and [llama_context *] are opaque pointers.  A non-null
    pointer is a [handle]; a nullable pointer is an [option handle], with
    [None] for [nullptr]. *)

Definition handle := positive.

(** The fields of [llama_model_params] and [llama_context_params] the bridge
    assigns; every other field keeps the library default. *)
Record llama_model_params := { n_gpu_layers : Z }.
Record llama_context_params := { n_ctx : Z; n_batch : Z; n_threads : Z }.

(** What the library holds for the process: the models and contexts that are
    alive (a context remembers the model it was created from), whether the
    backend is initialised, and the next address the allocator hands out. *)
Record Llama := {
  backend_up : bool;
  models : gset handle;
  contexts : gmap handle handle;
  fresh : handle
}.

(** The library calls the bridge makes, in the order it makes them. *)
Inductive NativeCall :=
| BackendInit
| ModelLoadFromFile (path : string) (p : llama_model_params) (res : option handle)
| InitFromModel (m : handle) (p : llama_context_params) (res : option handle)
| Free (c : handle)
| ModelFree (m : handle)
| BackendFree.

(** Whether the library can serve the two fallible requests of one
    [loadModel] call: parsing the file, and allocating the context. *)
Record LlamaOutcome := { file_loads : bool; context_allocates : bool }.

(** ** Logcat *)

Inductive LogPriority := ANDROID_LOG_INFO | ANDROID_LOG_ERROR.
Inductive LogArg := ArgS (s : string) | ArgD (d : Z).
Record LogLine := { prio : LogPriority; tag : string; fmt : string; args : list LogArg }.

Definition TAG : string := "LlamaBridge".

(** ** Process state

    [g_model] and [g_ctx] are the two file-level statics of the bridge.  They
    are declared only when [LLAMA_AVAILABLE] is 1; in the other build no entry
    point reads or writes them and they stay [None]. *)
Record World := {
  g_model : option handle;
  g_ctx : option handle;
  llama : Llama;
  calls : list NativeCall;
  logcat : list LogLine
}.

Definition boot : World :=
  {| g_model := None; g_ctx := None;
     llama := {| backend_up := false; models := ∅; contexts := ∅; fresh := 1%positive |};
     calls := []; logcat := [] |}.

(** ** State and fault monad

    A computation reads and writes the [World]; [None] is a native fault
    (releasing a pointer that is not alive, calling through a null method
    id), after which nothing is defined. *)
Definition Bridge (A : Type) : Type := World -> option (A * World).

Definition ret {A} (a : A) : Bridge A := fun w => Some (a, w).
Definition bind {A B} (m : Bridge A) (k : A -> Bridge B) : Bridge B :=
  fun w => match m w with
           | Some (a, w') => k a w'
           | None => None
           end.
Definition fault {A} : Bridge A := fun _ => None.
Definition gets {A} (f : World -> A) : Bridge A := fun w => Some (f w, w).
Definition modify (f : World -> World) : Bridge unit := fun w => Some (tt, f w).

Declare Scope bridge_scope.
Delimit Scope bridge_scope with bridge.
Notation "'let*' x := m 'in' k" := (bind m (fun x => k))
  (at level 10, x name, m at level 100, k at level 200) : bridge_scope.
Notation "m ;;; k" := (bind m (fun _ => k))
  (at level 100, k at level 200, right associativity) : bridge_scope.
Local Open Scope bridge_scope.

Definition set_g_model (m : option handle) : Bridge unit :=
  modify (fun w => {| g_model := m; g_ctx := g_ctx w; llama := llama w;
                      calls := calls w; logcat := logcat w |}).
Definition set_g_ctx (c : option handle) : Bridge unit :=
  modify (fun w => {| g_model := g_model w; g_ctx := c; llama := llama w;
                      calls := calls w; logcat := logcat w |}).
Definition set_llama (l : Llama) : Bridge unit :=
  modify (fun w => {| g_model := g_model w; g_ctx := g_ctx w; llama := l;
                      calls := calls w; logcat := logcat w |}).
Definition record_call (c : NativeCall) : Bridge unit :=
  modify (fun w => {| g_model := g_model w; g_ctx := g_ctx w; llama := llama w;
                      calls := calls w ++ [c]; logcat := logcat w |}).
Definition android_log_print (p : LogPriority) (f : string) (a : list LogArg) : Bridge unit :=
  modify (fun w => {| g_model := g_model w; g_ctx := g_ctx w; llama := llama w;
                      calls := calls w;
                      logcat := logcat w ++ [{| prio := p; tag := TAG; fmt := f; args := a |}] |}).

Definition LOGI := android_log_print ANDROID_LOG_INFO.
Definition LOGE := android_log_print ANDROID_LOG_ERROR.

(** ** The library functions

    llama.cpp itself is outside the repository.  These are the calls the
    bridge makes, with the contract it relies on: loading and context
    creation may fail and then return null; a context is created from a model
    that is alive; releasing a pointer that is not alive is a fault. *)

Definition llama_backend_init : Bridge unit :=
  let* l := gets llama in
  set_llama {| backend_up := true; models := models l;
               contexts := contexts l; fresh := fresh l |} ;;;
  record_call BackendInit.

Definition llama_backend_free : Bridge unit :=
  let* l := gets llama in
  set_llama {| backend_up := false; models := models l;
               contexts := contexts l; fresh := fresh l |} ;;;
  record_call BackendFree.

Definition llama_model_load_from_file (lib : LlamaOutcome) (path : string)
    (p : llama_model_params) : Bridge (option handle) :=
  let* l := gets llama in
  if file_loads lib then
    let m := fresh l in
    set_llama {| backend_up := backend_up l; models := {[m]} ∪ models l;
                 contexts := contexts l; fresh := Pos.succ m |} ;;;
    record_call (ModelLoadFromFile path p (Some m)) ;;;
    ret (Some m)
  else
    record_call (ModelLoadFromFile path p None) ;;;
    ret None.

Definition llama_init_from_model (lib : LlamaOutcome) (m : handle)
    (p : llama_context_params) : Bridge (option handle) :=
  let* l := gets llama in
  if bool_decide (m ∈ models l) then
    if context_allocates lib then
      let c := fresh l in
      set_llama {| backend_up := backend_up l; models := models l;
                   contexts := <[c := m]> (contexts l); fresh := Pos.succ c |} ;;;
      record_call (InitFromModel m p (Some c)) ;;;
      ret (Some c)
    else
      record_call (InitFromModel m p None) ;;;
      ret None
  else fault.

Definition llama_free (c : handle) : Bridge unit :=
  let* l := gets llama in
  match contexts l !! c with
  | Some _ =>
      set_llama {| backend_up := backend_up l; models := models l;
                   contexts := delete c (contexts l); fresh := fresh l |} ;;;
      record_call (Free c)
  | None => fault
  end.

Definition llama_model_free (m : handle) : Bridge unit :=
  let* l := gets llama in
  if bool_decide (m ∈ models l) then
    set_llama {| backend_up := backend_up l; models := models l ∖ {[m]};
                 contexts := contexts l; fresh := fresh l |} ;;;
    record_call (ModelFree m)
  else fault.

(** ** The JNI environment

    A [jstring] the bridge receives is its character sequence; the bridge only
    passes ASCII text to [NewStringUTF], so both conversions keep the
    characters as they are.  [ReleaseStringUTFChars] gives the buffer back
    and has no effect that the bridge can see.  The class of a callback
    object is the interface below, so [GetObjectClass] stays implicit in
    [GetMethodID]. *)
Definition GetStringUTFChars (s : string) : string := s.
Definition NewStringUTF (s : string) : string := s.

(** Modelled from the spec: the callback interface is declared on the managed
    side, not in the bridge source; it offers three operations, each taking
    one string and returning nothing ([onToken], [onComplete], [onError]).
    The state of the callback object is [C]. *)
Class LlamaStreamCallback (C : Type) := {
  onToken : string -> C -> C;
  onComplete : string -> C -> C;
  onError : string -> C -> C
}.

Inductive jmethodID := MID_onToken | MID_onComplete | MID_onError.

(** Method lookup by name and signature; [None] is the null id JNI returns
    when the class has no such method. *)
Definition GetMethodID (name sig : string) : option jmethodID :=
  if negb (String.eqb sig "(Ljava/lang/String;)V") then None
  else if String.eqb name "onToken" then Some MID_onToken
  else if String.eqb name "onComplete" then Some MID_onComplete
  else if String.eqb name "onError" then Some MID_onError
  else None.

Definition CallVoidMethod {C} `{LlamaStreamCallback C}
    (callback : C) (mid : option jmethodID) (arg : string) : Bridge C :=
  match mid with
  | Some MID_onToken => ret (onToken arg callback)
  | Some MID_onComplete => ret (onComplete arg callback)
  | Some MID_onError => ret (onError arg callback)
  | None => fault
  end.

(** The callback that records what it is told, oldest call first. *)
Inductive CallbackEvent :=
| OnToken (text : string)
| OnComplete (responseJson : string)
| OnError (message : string).

#[export] Instance recorder : LlamaStreamCallback (list CallbackEvent) := {
  onToken s t := (t ++ [OnToken s])%list;
  onComplete s t := (t ++ [OnComplete s])%list;
  onError s t := (t ++ [OnError s])%list
}.

(** ** Lifecycle entry points *)

(** [jint] to the unsigned 32-bit field [n_ctx], as the assignment
    [ctx_params.n_ctx = nCtx] converts. *)
Definition to_uint32 (z : Z) : Z := z mod 2 ^ 32.

Definition loadModel (LLAMA_AVAILABLE : bool) (lib : LlamaOutcome)
    (modelPath : string) (nCtx : Z) : Bridge bool :=
  if LLAMA_AVAILABLE then
    let path := GetStringUTFChars modelPath in
    LOGI "Loading model: %s (nCtx=%d)" [ArgS path; ArgD nCtx] ;;;
    llama_backend_init ;;;
    let model_params := {| n_gpu_layers := 0 |} in
    let* m := llama_model_load_from_file lib path model_params in
    set_g_model m ;;;
    let* gm := gets g_model in
    match gm with
    | None =>
        LOGE "Failed to load model" [] ;;;
        ret false
    | Some model =>
        let ctx_params := {| n_ctx := to_uint32 nCtx; n_batch := 512; n_threads := 4 |} in
        let* c := llama_init_from_model lib model ctx_params in
        set_g_ctx c ;;;
        let* gc := gets g_ctx in
        match gc with
        | None =>
            LOGE "Failed to create context" [] ;;;
            llama_model_free model ;;;
            set_g_model None ;;;
            ret false
        | Some _ =>
            LOGI "Model loaded successfully" [] ;;;
            ret true
        end
    end
  else
    LOGE "llama.cpp not available in this build" [] ;;;
    ret false.

Definition unloadModel (LLAMA_AVAILABLE : bool) : Bridge unit :=
  if LLAMA_AVAILABLE then
    let* gc := gets g_ctx in
    match gc with
    | Some c => llama_free c ;;; set_g_ctx None
    | None => ret tt
    end ;;;
    let* gm := gets g_model in
    match gm with
    | Some m => llama_model_free m ;;; set_g_model None
    | None => ret tt
    end ;;;
    llama_backend_free ;;;
    LOGI "Model unloaded" []
  else ret tt.

(** ** String literals of the bridge *)

Definition dq : string := String "034"%char EmptyString.
Definition nl : string := String "010"%char EmptyString.
(** [q s] is [s] between double quotes. *)
Definition q (s : string) : string := dq ++ s ++ dq.
Definition indent8 : string := "        ".
Definition indent12 : string := "            ".
Definition indent16 : string := "                ".

(** The error payload of the not-loaded case: one member, [error]. *)
Definition not_loaded_payload : string :=
  "{" ++ q "error" ++ ":" ++ q "Model not loaded" ++ "}".

(** The error payload of the build without the library. *)
Definition not_available_payload : string :=
  "{" ++ q "error" ++ ":" ++ q "llama.cpp not available in this build" ++ "}".

(** The raw string literal of [chatCompletion], line by line. *)
Definition chat_response : string :=
  "{" ++ nl ++
  indent8 ++ q "id" ++ ": " ++ q "local-0" ++ "," ++ nl ++
  indent8 ++ q "object" ++ ": " ++ q "chat.completion" ++ "," ++ nl ++
  indent8 ++ q "model" ++ ": " ++ q "qwen3-4b" ++ "," ++ nl ++
  indent8 ++ q "choices" ++ ": [{" ++ nl ++
  indent12 ++ q "index" ++ ": 0," ++ nl ++
  indent12 ++ q "message" ++ ": {" ++ nl ++
  indent16 ++ q "role" ++ ": " ++ q "assistant" ++ "," ++ nl ++
  indent16 ++ q "content" ++ ": "
           ++ q "Local model inference is not yet fully implemented." ++ nl ++
  indent12 ++ "}," ++ nl ++
  indent12 ++ q "finish_reason" ++ ": " ++ q "stop" ++ nl ++
  indent8 ++ "}]," ++ nl ++
  indent8 ++ q "usage" ++ ": {" ++ q "prompt_tokens" ++ ": 0, "
          ++ q "completion_tokens" ++ ": 0, " ++ q "total_tokens" ++ ": 0}" ++ nl ++
  "    }".

Definition stream_placeholder : string :=
  "Local model streaming is not yet fully implemented.".

(** The raw string literal of [chatCompletionStream], line by line. *)
Definition stream_response : string :=
  "{" ++ nl ++
  indent8 ++ q "id" ++ ": " ++ q "local-stream-0" ++ "," ++ nl ++
  indent8 ++ q "object" ++ ": " ++ q "chat.completion" ++ "," ++ nl ++
  indent8 ++ q "model" ++ ": " ++ q "qwen3-4b" ++ "," ++ nl ++
  indent8 ++ q "choices" ++ ": [{" ++ nl ++
  indent12 ++ q "index" ++ ": 0," ++ nl ++
  indent12 ++ q "message" ++ ": {" ++ nl ++
  indent16 ++ q "role" ++ ": " ++ q "assistant" ++ "," ++ nl ++
  indent16 ++ q "content" ++ ": "
           ++ q "Local model streaming is not yet fully implemented." ++ nl ++
  indent12 ++ "}," ++ nl ++
  indent12 ++ q "finish_reason" ++ ": " ++ q "stop" ++ nl ++
  indent8 ++ "}]" ++ nl ++
  "    }".

(** ** Completion entry points *)

(** [!p] on a pointer. *)
Definition is_null (p : option handle) : bool :=
  match p with
  | None => true
  | Some _ => false
  end.

Definition chatCompletion (LLAMA_AVAILABLE : bool) (requestJson : string)
    : Bridge string :=
  if LLAMA_AVAILABLE then
    let* gm := gets g_model in
    let* gc := gets g_ctx in
    if is_null gm || is_null gc then
      ret (NewStringUTF not_loaded_payload)
    else
      let req := GetStringUTFChars requestJson in
      let request := req in
      let response := chat_response in
      ret (NewStringUTF response)
  else
    ret (NewStringUTF not_available_payload).

Definition chatCompletionStream {C} `{LlamaStreamCallback C}
    (LLAMA_AVAILABLE : bool) (requestJson : string) (callback : C) : Bridge C :=
  if LLAMA_AVAILABLE then
    let* gm := gets g_model in
    let* gc := gets g_ctx in
    if is_null gm || is_null gc then
      let onError := GetMethodID "onError" "(Ljava/lang/String;)V" in
      CallVoidMethod callback onError (NewStringUTF "Model not loaded")
    else
      let onToken := GetMethodID "onToken" "(Ljava/lang/String;)V" in
      let onComplete := GetMethodID "onComplete" "(Ljava/lang/String;)V" in
      let* callback1 :=
        CallVoidMethod callback onToken (NewStringUTF stream_placeholder) in
      let response := stream_response in
      CallVoidMethod callback1 onComplete (NewStringUTF response)
  else
    let onError := GetMethodID "onError" "(Ljava/lang/String;)V" in
    CallVoidMethod callback onError (NewStringUTF "llama.cpp not available").

(** ** Reading a payload

    The payloads are JSON text.  To state what a consumer finds at a path
    such as [choices[0].message.role], this reader turns the text into a
    tree: objects, arrays, strings with the one-character escapes, integers,
    [true], [false] and [null].  It refuses everything else, so a payload it
    accepts is well formed. *)

#[warnings="-register-all"]
Inductive json :=
| JNull
| JBool (b : bool)
| JNum (z : Z)
| JStr (s : string)
| JArr (items : list json)
| JObj (members : list (string * json)).

Definition is_ws (c : ascii) : bool :=
  Ascii.eqb c " "%char || Ascii.eqb c "010"%char
  || Ascii.eqb c "013"%char || Ascii.eqb c "009"%char.

Fixpoint skip_ws (s : string) : string :=
  match s with
  | String c r => if is_ws c then skip_ws r else s
  | EmptyString => s
  end.

Definition digit_of (c : ascii) : option Z :=
  let n := Z.of_nat (nat_of_ascii c) in
  if (48 <=? n)%Z && (n <=? 57)%Z then Some (n - 48)%Z else None.

Fixpoint read_digits (s : string) (acc : Z) : Z * string :=
  match s with
  | String c r =>
      match digit_of c with
      | Some d => read_digits r (10 * acc + d)%Z
      | None => (acc, s)
      end
  | EmptyString => (acc, s)
  end.

Definition unescape (c : ascii) : option ascii :=
  if Ascii.eqb c "034"%char then Some "034"%char
  else if Ascii.eqb c "092"%char then Some "092"%char
  else if Ascii.eqb c "/"%char then Some "/"%char
  else if Ascii.eqb c "n"%char then Some "010"%char
  else if Ascii.eqb c "r"%char then Some "013"%char
  else if Ascii.eqb c "t"%char then Some "009"%char
  else None.

(** The characters of a string literal after its opening quote, up to and
    without the closing one. *)
Fixpoint read_string (s : string) : option (string * string) :=
  match s with
  | EmptyString => None
  | String c r =>
      if Ascii.eqb c "034"%char then Some (EmptyString, r)
      else if Ascii.eqb c "092"%char then
        match r with
        | String e r' =>
            match unescape e, read_string r' with
            | Some c', Some (t, rest) => Some (String c' t, rest)
            | _, _ => None
            end
        | EmptyString => None
        end
      else if (Z.of_nat (nat_of_ascii c) <? 32)%Z then None
      else
        match read_string r with
        | Some (t, rest) => Some (String c t, rest)
        | None => None
        end
  end.

Fixpoint strip_prefix (p s : string) : option string :=
  match p, s with
  | EmptyString, _ => Some s
  | String a p', String b s' => if Ascii.eqb a b then strip_prefix p' s' else None
  | String _ _, EmptyString => None
  end.

Fixpoint read_value (fuel : nat) (s : string) : option (json * string) :=
  match fuel with
  | O => None
  | S fuel' =>
      match skip_ws s with
      | EmptyString => None
      | String c r =>
          if Ascii.eqb c "{"%char then
            match skip_ws r with
            | String "}"%char r' => Some (JObj [], r')
            | r0 => read_members fuel' r0 []
            end
          else if Ascii.eqb c "["%char then
            match skip_ws r with
            | String "]"%char r' => Some (JArr [], r')
            | r0 => read_items fuel' r0 []
            end
          else if Ascii.eqb c "034"%char then
            match read_string r with
            | Some (t, rest) => Some (JStr t, rest)
            | None => None
            end
          else if Ascii.eqb c "-"%char then
            match r with
            | String d _ =>
                match digit_of d with
                | Some _ => let '(n, rest) := read_digits r 0%Z in Some (JNum (- n)%Z, rest)
                | None => None
                end
            | EmptyString => None
            end
          else
            match digit_of c with
            | Some _ => let '(n, rest) := read_digits (String c r) 0%Z in Some (JNum n, rest)
            | None =>
                match strip_prefix "true" (String c r) with
                | Some rest => Some (JBool true, rest)
                | None =>
                    match strip_prefix "false" (String c r) with
                    | Some rest => Some (JBool false, rest)
                    | None =>
                        match strip_prefix "null" (String c r) with
                        | Some rest => Some (JNull, rest)
                        | None => None
                        end
                    end
                end
            end
      end
  end
with read_items (fuel : nat) (s : string) (acc : list json) : option (json * string) :=
  match fuel with
  | O => None
  | S fuel' =>
      match read_value fuel' s with
      | Some (v, r) =>
          match skip_ws r with
          | String c r' =>
              if Ascii.eqb c ","%char then read_items fuel' r' (acc ++ [v])%list
              else if Ascii.eqb c "]"%char then Some (JArr (acc ++ [v])%list, r')
              else None
          | EmptyString => None
          end
      | None => None
      end
  end
with read_members (fuel : nat) (s : string) (acc : list (string * json))
    : option (json * string) :=
  match fuel with
  | O => None
  | S fuel' =>
      match skip_ws s with
      | String "034"%char r =>
          match read_string r with
          | Some (k, r1) =>
              match skip_ws r1 with
              | String ":"%char r2 =>
                  match read_value fuel' r2 with
                  | Some (v, r3) =>
                      match skip_ws r3 with
                      | String c r4 =>
                          if Ascii.eqb c ","%char
                          then read_members fuel' r4 (acc ++ [(k, v)])%list
                          else if Ascii.eqb c "}"%char
                          then Some (JObj (acc ++ [(k, v)])%list, r4)
                          else None
                      | EmptyString => None
                      end
                  | None => None
                  end
              | _ => None
              end
          | None => None
          end
      | _ => None
      end
  end.

(** A whole text is one value, with nothing but blanks around it. *)
Definition read_json (s : string) : option json :=
  match read_value (2 * String.length s + 2) s with
  | Some (j, rest) =>
      match skip_ws rest with
      | EmptyString => Some j
      | String _ _ => None
      end
  | None => None
  end.

Inductive Sel := Key (k : string) | Idx (n : nat).

Fixpoint assoc (k : string) (l : list (string * json)) : option json :=
  match l with
  | [] => None
  | (k', v) :: l' => if String.eqb k k' then Some v else assoc k l'
  end.

Definition step_into (x : Sel) (j : json) : option json :=
  match x, j with
  | Key k, JObj l => assoc k l
  | Idx n, JArr l => nth_error l n
  | _, _ => None
  end.

(** [select p j] follows the path [p] from the root of [j]. *)
Fixpoint select (p : list Sel) (j : json) : option json :=
  match p with
  | [] => Some j
  | x :: p' =>
      match step_into x j with
      | Some j' => select p' j'
      | None => None
      end
  end.

(** A payload of the error shape [{"error": message}] and its message. *)
Definition error_shaped (payload : string) : option string :=
  match read_json payload with
  | Some (JObj [(k, JStr message)]) => if String.eqb k "error" then Some message else None
  | _ => None
  end.

(** ** Observations on the state *)

(** Both handles present or both absent. *)
Definition paired (w : World) : bool :=
  Bool.eqb (is_null (g_model w)) (is_null (g_ctx w)).

(** The test both completion entry points make before serving. *)
Definition not_loaded (w : World) : bool :=
  is_null (g_model w) || is_null (g_ctx w).

(** A pointer the bridge holds is null or points to something alive.  In the
    build without the library the statics do not exist. *)
Definition live_model (l : Llama) (p : option handle) : bool :=
  match p with
  | Some m => bool_decide (m ∈ models l)
  | None => true
  end.

Definition live_context (l : Llama) (p : option handle) : bool :=
  match p with
  | Some c => match contexts l !! c with Some _ => true | None => false end
  | None => true
  end.

Definition wf (LLAMA_AVAILABLE : bool) (w : World) : bool :=
  if LLAMA_AVAILABLE
  then live_model (llama w) (g_model w) && live_context (llama w) (g_ctx w)
  else is_null (g_model w) && is_null (g_ctx w).

(** ** Callback traces *)

Definition is_token (e : CallbackEvent) : bool :=
  match e with
  | OnToken _ => true
  | _ => false
  end.

(** Any number of [onToken] calls, then one [onComplete]. *)
Fixpoint tokens_then_complete (t : list CallbackEvent) : bool :=
  match t with
  | [OnComplete _] => true
  | OnToken _ :: t' => tokens_then_complete t'
  | _ => false
  end.

Definition single_error (t : list CallbackEvent) : bool :=
  match t with
  | [OnError _] => true
  | _ => false
  end.

Definition valid_stream_trace (t : list CallbackEvent) : bool :=
  tokens_then_complete t || single_error t.

(** No [onToken] once [onComplete] or [onError] has been called. *)
Fixpoint no_token_after_terminal (t : list CallbackEvent) : bool :=
  match t with
  | [] => true
  | OnToken _ :: t' => no_token_after_terminal t'
  | _ :: t' => forallb (fun e => negb (is_token e)) t'
  end.

(** ** The host driving the bridge

    The managed side calls the four entry points in any order.  A [Call] is
    one such call with its arguments (and, for [loadModel], what the library
    will answer); a [Reply] is what comes back. *)
Inductive Call :=
| LoadModel (lib : LlamaOutcome) (modelPath : string) (nCtx : Z)
| UnloadModel
| ChatCompletion (requestJson : string)
| ChatCompletionStream (requestJson : string).

Inductive Reply :=
| RBool (b : bool)
| RVoid
| RString (s : string)
| RTrace (t : list CallbackEvent).

Definition host_call (LLAMA_AVAILABLE : bool) (c : Call) : Bridge Reply :=
  match c with
  | LoadModel lib modelPath nCtx =>
      let* b := loadModel LLAMA_AVAILABLE lib modelPath nCtx in ret (RBool b)
  | UnloadModel =>
      unloadModel LLAMA_AVAILABLE ;;; ret RVoid
  | ChatCompletion requestJson =>
      let* s := chatCompletion LLAMA_AVAILABLE requestJson in ret (RString s)
  | ChatCompletionStream requestJson =>
      let* t := chatCompletionStream LLAMA_AVAILABLE requestJson [] in ret (RTrace t)
  end.

Fixpoint host_run (LLAMA_AVAILABLE : bool) (cs : list Call) : Bridge (list Reply) :=
  match cs with
  | [] => ret []
  | c :: cs' =>
      let* r := host_call LLAMA_AVAILABLE c in
      let* rs := host_run LLAMA_AVAILABLE cs' in
      ret (r :: rs)
  end.

(** The state a computation leaves, and [w] itself if it faults. *)
Definition after {A} (m : Bridge A) (w : World) : World :=
  match m w with
  | Some (_, w') => w'
  | None => w
  end.

Definition all_ok : LlamaOutcome := {| file_loads := true; context_allocates := true |}.
Definition no_file : LlamaOutcome := {| file_loads := false; context_allocates := true |}.
Definition no_memory : LlamaOutcome := {| file_loads := true; context_allocates := false |}.

(** The process after one successful [loadModel] from a fresh start. *)
Definition loaded_world : World :=
  after (loadModel true all_ok "/data/models/qwen3-4b.gguf" 2048) boot.

(** The allocator has not yet handed out its next address. *)
Definition alloc_ok (w : World) : Prop :=
  forall h, h ∈ models (llama w) -> (h < fresh (llama w))%positive.

(** The host keeps to one load at a time: every [loadModel] of [cs], run
    from [w], starts with no context held. *)
Fixpoint loads_from_empty (LLAMA_AVAILABLE : bool) (cs : list Call) (w : World) : bool :=
  match cs with
  | [] => true
  | c :: cs' =>
      match c with
      | LoadModel _ _ _ => is_null (g_ctx w)
      | _ => true
      end
      && loads_from_empty LLAMA_AVAILABLE cs' (after (host_call LLAMA_AVAILABLE c) w)
  end.

(** What the bridge keeps true of the library: the allocator is ahead of every
    model and context alive; a context that is alive was created from a model
    that is alive; a held model has the held context as its one context; a
    held context is alive. *)
Record sound (w : World) : Prop := {
  sound_models :
    forall h, h ∈ models (llama w) -> (h < fresh (llama w))%positive;
  sound_contexts :
    forall c m, contexts (llama w) !! c = Some m ->
      (c < fresh (llama w))%positive /\ m ∈ models (llama w);
  sound_held :
    forall m, g_model w = Some m ->
      exists c, g_ctx w = Some c /\
        forall c', contexts (llama w) !! c' = Some m <-> c' = c;
  sound_ctx :
    forall c, g_ctx w = Some c -> is_Some (contexts (llama w) !! c)
}.

(** * Properties *)

Create HintDb bridge discriminated.
#[local] Hint Unfold bind ret gets modify fault set_g_model set_g_ctx set_llama
  record_call android_log_print LOGI LOGE NewStringUTF GetStringUTFChars : bridge.

(** Expose the state-passing term behind the monad notation. *)
Ltac bridge_unfold := autounfold with bridge; cbn beta iota.

(** ** Traces *)

Lemma tokens_then_complete_ordered (t : list CallbackEvent) :
  tokens_then_complete t = true -> no_token_after_terminal t = true.
Proof.
  induction t as [|e t IH]; simpl; [discriminate|].
  destruct e; auto.
  - destruct t; [reflexivity | discriminate].
  - discriminate.
Qed.

Lemma single_error_ordered (t : list CallbackEvent) :
  single_error t = true -> no_token_after_terminal t = true.
Proof.
  destruct t as [|[] [|]]; simpl; intros; try discriminate; reflexivity.
Qed.

Lemma valid_stream_trace_ordered (t : list CallbackEvent) :
  valid_stream_trace t = true -> no_token_after_terminal t = true.
Proof.
  unfold valid_stream_trace. intros H.
  apply orb_true_iff in H as [H|H];
    auto using tokens_then_complete_ordered, single_error_ordered.
Qed.

(** ** The completion entry points read, and never write *)

Lemma chatCompletion_cases (avail : bool) (req : string) (w : World) :
  chatCompletion avail req w =
    Some (if avail
          then if not_loaded w then not_loaded_payload else chat_response
          else not_available_payload, w).
Proof.
  unfold chatCompletion, not_loaded. bridge_unfold.
  destruct avail; [|reflexivity].
  destruct (is_null (g_model w) || is_null (g_ctx w)); reflexivity.
Qed.

Lemma chatCompletionStream_cases (avail : bool) (req : string)
    (pre : list CallbackEvent) (w : World) :
  chatCompletionStream avail req pre w =
    Some ((pre ++
           if avail
           then if not_loaded w then [OnError "Model not loaded"]
                else [OnToken stream_placeholder; OnComplete stream_response]
           else [OnError "llama.cpp not available"])%list, w).
Proof.
  unfold chatCompletionStream, not_loaded. bridge_unfold.
  destruct avail; [|reflexivity].
  destruct (is_null (g_model w) || is_null (g_ctx w)); simpl.
  - reflexivity.
  - bridge_unfold. now rewrite <- app_assoc.
Qed.

(** C3.  A streaming call made while the model or the context is absent calls
    [onError] once, with a message fixed by the build ("Model not loaded"
    where the library is compiled in), calls neither [onToken] nor
    [onComplete], returns, and leaves the process as it was. *)
Theorem stream_not_loaded_single_error (avail : bool) (req : string)
    (pre : list CallbackEvent) (w : World) :
  not_loaded w = true ->
  chatCompletionStream avail req pre w =
    Some ((pre ++ [OnError (if avail then "Model not loaded"
                            else "llama.cpp not available")])%list, w).
Proof.
  intros H. rewrite chatCompletionStream_cases, H. now destruct avail.
Qed.

Lemma stream_not_loaded_single_error_witness :
  not_loaded boot = true /\
  chatCompletionStream true "{}" [] boot = Some ([OnError "Model not loaded"], boot).
Proof.
  split; [reflexivity|].
  apply (stream_not_loaded_single_error true "{}" [] boot). reflexivity.
Defined.

(** C4.  A blocking call made while the model or the context is absent
    returns the payload [{"error":"Model not loaded"}] as its result, without
    fault, and leaves the process as it was. *)
Theorem chatCompletion_not_loaded_payload (req : string) (w : World) :
  not_loaded w = true ->
  chatCompletion true req w = Some (not_loaded_payload, w) /\
  read_json not_loaded_payload = Some (JObj [("error", JStr "Model not loaded")]) /\
  error_shaped not_loaded_payload = Some "Model not loaded".
Proof.
  intros H. rewrite chatCompletion_cases, H.
  repeat split; vm_compute; reflexivity.
Qed.

Lemma chatCompletion_not_loaded_payload_witness :
  not_loaded boot = true /\
  chatCompletion true "{}" boot = Some (not_loaded_payload, boot).
Proof.
  split; [reflexivity|].
  apply (chatCompletion_not_loaded_payload "{}" boot). reflexivity.
Defined.

(** C5.  In either build and in every state, the calls a streaming
    invocation makes on its callback are [onToken] calls followed by one
    [onComplete], or one [onError] alone; no [onToken] comes after an
    [onComplete] or an [onError]. *)
Theorem stream_callback_ordering (avail : bool) (req : string)
    (pre : list CallbackEvent) (w : World) :
  exists t,
    chatCompletionStream avail req pre w = Some ((pre ++ t)%list, w) /\
    valid_stream_trace t = true /\
    no_token_after_terminal t = true.
Proof.
  rewrite chatCompletionStream_cases.
  eexists; split; [reflexivity|].
  assert (Hv : valid_stream_trace
            (if avail
             then if not_loaded w then [OnError "Model not loaded"]
                  else [OnToken stream_placeholder; OnComplete stream_response]
             else [OnError "llama.cpp not available"]) = true)
    by (destruct avail; [destruct (not_loaded w)|]; reflexivity).
  split; [exact Hv | now apply valid_stream_trace_ordered].
Qed.

(** C6.  A streaming call made while both handles are present calls
    [onToken] once with the placeholder text, then [onComplete] once with the
    final payload, and never [onError].  The final payload is the fixed
    response of the stream: well-formed JSON with id "local-stream-0", object
    "chat.completion", model "qwen3-4b", and one choice of index 0 whose
    message has the role "assistant" and the placeholder text as content,
    with finish reason "stop". *)
Theorem stream_loaded_token_then_complete (req : string)
    (pre : list CallbackEvent) (w : World) (m c : handle) :
  g_model w = Some m -> g_ctx w = Some c ->
  exists payload,
    chatCompletionStream true req pre w =
      Some ((pre ++ [OnToken "Local model streaming is not yet fully implemented.";
                     OnComplete payload])%list, w) /\
    payload = stream_response /\
    read_json payload =
      Some (JObj
        [("id", JStr "local-stream-0");
         ("object", JStr "chat.completion");
         ("model", JStr "qwen3-4b");
         ("choices",
          JArr [JObj
            [("index", JNum 0);
             ("message",
              JObj [("role", JStr "assistant");
                    ("content",
                     JStr "Local model streaming is not yet fully implemented.")]);
             ("finish_reason", JStr "stop")]])]).
Proof.
  intros Hm Hc. exists stream_response. split; [|split].
  - rewrite chatCompletionStream_cases. unfold not_loaded. now rewrite Hm, Hc.
  - reflexivity.
  - vm_compute. reflexivity.
Qed.

Lemma stream_loaded_token_then_complete_witness :
  g_model loaded_world = Some 1%positive /\
  g_ctx loaded_world = Some 2%positive /\
  exists payload,
    chatCompletionStream true "{}" [] loaded_world =
      Some ([OnToken "Local model streaming is not yet fully implemented.";
             OnComplete payload], loaded_world) /\
    exists j, read_json payload = Some j /\
      select [Key "choices"; Idx 0; Key "message"; Key "role"] j
        = Some (JStr "assistant").
Proof.
  split; [reflexivity|]. split; [reflexivity|].
  destruct (stream_loaded_token_then_complete "{}" [] loaded_world
              1%positive 2%positive) as (payload & H & _ & Hj);
    [reflexivity | reflexivity |].
  exists payload. split; [exact H|].
  eexists. split; [exact Hj | reflexivity].
Defined.

(** C7.  A blocking call made while both handles are present accepts any
    request text and returns one fixed payload.  The payload is well formed;
    in it [choices[0].message.role] is "assistant", [content] says that
    inference is not yet implemented, [finish_reason] is "stop", and the
    three usage counts are zero. *)
Theorem chatCompletion_loaded_payload (req : string) (w : World) (m c : handle) :
  g_model w = Some m -> g_ctx w = Some c ->
  exists j,
    chatCompletion true req w = Some (chat_response, w) /\
    read_json chat_response = Some j /\
    select [Key "choices"; Idx 0; Key "message"; Key "role"] j
      = Some (JStr "assistant") /\
    select [Key "choices"; Idx 0; Key "message"; Key "content"] j
      = Some (JStr "Local model inference is not yet fully implemented.") /\
    select [Key "choices"; Idx 0; Key "finish_reason"] j = Some (JStr "stop") /\
    select [Key "usage"; Key "prompt_tokens"] j = Some (JNum 0) /\
    select [Key "usage"; Key "completion_tokens"] j = Some (JNum 0) /\
    select [Key "usage"; Key "total_tokens"] j = Some (JNum 0).
Proof.
  intros Hm Hc.
  destruct (read_json chat_response) as [j|] eqn:Hj; [|vm_compute in Hj; discriminate].
  exists j. split.
  - rewrite chatCompletion_cases. unfold not_loaded. now rewrite Hm, Hc.
  - split; [reflexivity|].
    vm_compute in Hj. injection Hj as <-.
    repeat split; reflexivity.
Qed.

Lemma chatCompletion_loaded_payload_witness :
  g_model loaded_world = Some 1%positive /\
  g_ctx loaded_world = Some 2%positive /\
  chatCompletion true "{}" loaded_world = Some (chat_response, loaded_world).
Proof.
  split; [reflexivity|]. split; [reflexivity|].
  destruct (chatCompletion_loaded_payload "{}" loaded_world 1%positive 2%positive)
    as [j [H _]]; [reflexivity | reflexivity | exact H].
Defined.

(** C9, as the code has it.  Without the library, the blocking path answers
    with a payload of the error shape and the streaming path with one
    [onError] call, the channels of the not-loaded case; the messages are the
    build's own ("llama.cpp not available in this build" and "llama.cpp not
    available"), not "Model not loaded". *)
Theorem unavailable_same_channels_own_messages (req : string)
    (pre : list CallbackEvent) (w w' : World) :
  not_loaded w' = true ->
  exists p p',
    chatCompletion false req w = Some (p, w) /\
    chatCompletion true req w' = Some (p', w') /\
    error_shaped p = Some "llama.cpp not available in this build" /\
    error_shaped p' = Some "Model not loaded" /\
    chatCompletionStream false req pre w
      = Some ((pre ++ [OnError "llama.cpp not available"])%list, w) /\
    chatCompletionStream true req pre w'
      = Some ((pre ++ [OnError "Model not loaded"])%list, w').
Proof.
  intros H. exists not_available_payload, not_loaded_payload.
  rewrite !chatCompletion_cases, !chatCompletionStream_cases, H.
  repeat split; vm_compute; reflexivity.
Qed.

Lemma unavailable_same_channels_own_messages_witness :
  not_loaded boot = true /\
  exists p p',
    chatCompletion false "{}" boot = Some (p, boot) /\
    chatCompletion true "{}" boot = Some (p', boot) /\
    error_shaped p = Some "llama.cpp not available in this build" /\
    error_shaped p' = Some "Model not loaded" /\
    chatCompletionStream false "{}" [] boot
      = Some ([OnError "llama.cpp not available"], boot) /\
    chatCompletionStream true "{}" [] boot
      = Some ([OnError "Model not loaded"], boot).
Proof.
  split; [reflexivity|].
  apply (unavailable_same_channels_own_messages "{}" [] boot boot). reflexivity.
Defined.

(** C9 as stated fails: from a fresh start the two builds return different
    payloads and pass different messages to [onError]. *)
Lemma unavailable_not_identical_to_not_loaded :
  not_loaded boot = true /\
  chatCompletion false "{}" boot <> chatCompletion true "{}" boot /\
  chatCompletionStream false "{}" [] boot <> chatCompletionStream true "{}" [] boot.
Proof.
  split; [reflexivity|]. split; vm_compute; discriminate.
Qed.

(** C10.  In a fixed build and state, two requests get the same reply: the
    blocking call returns the same string and leaves the same state, and the
    streaming call makes the same calls on the callback, whatever the
    callback does with them. *)
Theorem request_content_independence (avail : bool) (w : World)
    (req1 req2 : string) :
  chatCompletion avail req1 w = chatCompletion avail req2 w /\
  (forall (C : Type) (cb : LlamaStreamCallback C) (callback : C),
     chatCompletionStream avail req1 callback w
       = chatCompletionStream avail req2 callback w) /\
  (forall pre : list CallbackEvent,
     chatCompletionStream avail req1 pre w
       = chatCompletionStream avail req2 pre w).
Proof.
  split; [now rewrite !chatCompletion_cases|].
  split; intros; unfold chatCompletionStream; destruct avail; reflexivity.
Qed.

(** ** Lifecycle *)

#[local] Hint Unfold llama_backend_init llama_backend_free
  llama_model_load_from_file llama_init_from_model llama_free
  llama_model_free : bridge.

(** In the build without the library, [loadModel] only logs and
    [unloadModel] does nothing. *)
Lemma unloadModel_unavailable (w : World) : unloadModel false w = Some (tt, w).
Proof. reflexivity. Qed.

Lemma loadModel_unavailable (lib : LlamaOutcome) (path : string) (n : Z) (w : World) :
  exists w', loadModel false lib path n w = Some (false, w') /\
             g_model w' = g_model w /\ g_ctx w' = g_ctx w /\ llama w' = llama w.
Proof. eexists. repeat split. Qed.

(** [unloadModel] on a state whose pointers are alive: it runs to the end,
    clears both statics, and takes exactly the held context and the held
    model out of the library. *)
Lemma unloadModel_runs (w : World) :
  wf true w = true ->
  exists w1,
    unloadModel true w = Some (tt, w1) /\
    g_model w1 = None /\ g_ctx w1 = None /\
    models (llama w1)
      = match g_model w with Some m => models (llama w) ∖ {[m]} | None => models (llama w) end /\
    contexts (llama w1)
      = match g_ctx w with Some c => delete c (contexts (llama w)) | None => contexts (llama w) end /\
    calls w1
      = (calls w
         ++ match g_ctx w with Some c => [Free c] | None => [] end
         ++ match g_model w with Some m => [ModelFree m] | None => [] end
         ++ [BackendFree])%list /\
    fresh (llama w1) = fresh (llama w).
Proof.
  destruct w as [gm gc [bu ms cx fr] cs lg]. unfold wf. simpl.
  intros H. apply andb_true_iff in H as [Hm Hc].
  unfold unloadModel. bridge_unfold. simpl.
  destruct gc as [c|]; simpl in *.
  - destruct (cx !! c) eqn:Ec; [|discriminate]. simpl.
    destruct gm as [m|]; simpl in *.
    + rewrite Hm. simpl. eexists. do 5 (split; [reflexivity|]). simpl.
      now rewrite <- !app_assoc.
    + eexists. do 5 (split; [reflexivity|]). simpl. now rewrite <- !app_assoc.
  - destruct gm as [m|]; simpl in *.
    + rewrite Hm. simpl. eexists. do 5 (split; [reflexivity|]). simpl.
      now rewrite <- !app_assoc.
    + eexists. repeat split.
Qed.



(** [loadModel] by what the library answers.  None of the three cases looks
    at the handles held on entry. *)
Lemma loadModel_no_file (lib : LlamaOutcome) (path : string) (n : Z) (w : World) :
  file_loads lib = false ->
  exists w',
    loadModel true lib path n w = Some (false, w') /\
    g_model w' = None /\ g_ctx w' = g_ctx w /\
    models (llama w') = models (llama w) /\
    contexts (llama w') = contexts (llama w) /\
    fresh (llama w') = fresh (llama w).
Proof.
  intros Hf. unfold loadModel. bridge_unfold. rewrite Hf. simpl.
  eexists. repeat split.
Qed.

Lemma loadModel_no_context (lib : LlamaOutcome) (path : string) (n : Z) (w : World) :
  file_loads lib = true -> context_allocates lib = false ->
  exists w',
    loadModel true lib path n w = Some (false, w') /\
    g_model w' = None /\ g_ctx w' = None /\
    models (llama w') = ({[fresh (llama w)]} ∪ models (llama w)) ∖ {[fresh (llama w)]} /\
    contexts (llama w') = contexts (llama w) /\
    fresh (llama w') = Pos.succ (fresh (llama w)).
Proof.
  intros Hf Hc. unfold loadModel. bridge_unfold. rewrite Hf. cbn beta iota.
  bridge_unfold. cbn [g_model g_ctx llama models contexts fresh backend_up calls logcat].
  rewrite !bool_decide_eq_true_2 by set_solver. rewrite Hc.
  cbn beta iota. bridge_unfold.
  cbn [g_model g_ctx llama models contexts fresh backend_up calls logcat].
  rewrite !bool_decide_eq_true_2 by set_solver.
  eexists. repeat split.
Qed.

Lemma loadModel_ok (lib : LlamaOutcome) (path : string) (n : Z) (w : World) :
  file_loads lib = true -> context_allocates lib = true ->
  exists w',
    loadModel true lib path n w = Some (true, w') /\
    g_model w' = Some (fresh (llama w)) /\
    g_ctx w' = Some (Pos.succ (fresh (llama w))) /\
    models (llama w') = {[fresh (llama w)]} ∪ models (llama w) /\
    contexts (llama w')
      = <[Pos.succ (fresh (llama w)) := fresh (llama w)]> (contexts (llama w)) /\
    fresh (llama w') = Pos.succ (Pos.succ (fresh (llama w))).
Proof.
  intros Hf Hc. unfold loadModel. bridge_unfold. rewrite Hf. cbn beta iota.
  bridge_unfold. cbn [g_model g_ctx llama models contexts fresh backend_up calls logcat].
  rewrite !bool_decide_eq_true_2 by set_solver. rewrite Hc.
  cbn beta iota. bridge_unfold.
  eexists. repeat split.
Qed.

(** [loadModel] always returns, and keeps the pointers it leaves alive. *)
Lemma loadModel_total (avail : bool) (lib : LlamaOutcome) (path : string)
    (n : Z) (w : World) :
  wf avail w = true ->
  exists b w', loadModel avail lib path n w = Some (b, w') /\ wf avail w' = true.
Proof.
  intros Hwf. destruct avail.
  - unfold wf in *. apply andb_true_iff in Hwf as [Hm Hc].
    destruct (file_loads lib) eqn:Hf; [destruct (context_allocates lib) eqn:Ha|].
    + destruct (loadModel_ok lib path n w Hf Ha)
        as (w' & Hrun & Em & Ec & Ems & Ecx & _).
      exists true, w'. split; [exact Hrun|].
      rewrite Em, Ec. unfold live_model, live_context. rewrite Ems, Ecx.
      rewrite bool_decide_eq_true_2
        by (apply elem_of_union_l, elem_of_singleton; reflexivity).
      now rewrite lookup_insert_eq.
    + destruct (loadModel_no_context lib path n w Hf Ha)
        as (w' & Hrun & Em & Ec & _).
      exists false, w'. split; [exact Hrun|]. now rewrite Em, Ec.
    + destruct (loadModel_no_file lib path n w Hf)
        as (w' & Hrun & Em & Ec & _ & Ecx & _).
      exists false, w'. split; [exact Hrun|].
      rewrite Em, Ec. simpl. unfold live_context in *. now rewrite Ecx.
  - destruct (loadModel_unavailable lib path n w) as (w' & Hrun & Em & Ec & _).
    exists false, w'. split; [exact Hrun|]. unfold wf in *. now rewrite Em, Ec.
Qed.

Lemma unloadModel_total (avail : bool) (w : World) :
  wf avail w = true ->
  exists w', unloadModel avail w = Some (tt, w') /\ wf avail w' = true /\
             g_model w' = None /\ g_ctx w' = None.
Proof.
  intros Hwf. destruct avail.
  - destruct (unloadModel_runs w Hwf) as (w' & Hrun & Em & Ec & _).
    exists w'. repeat split; auto. unfold wf. now rewrite Em, Ec.
  - exists w. rewrite unloadModel_unavailable. repeat split; auto;
      unfold wf in Hwf; apply andb_true_iff in Hwf as [Hm Hc].
    + now destruct (g_model w).
    + now destruct (g_ctx w).
Qed.

Lemma boot_wf (avail : bool) : wf avail boot = true.
Proof. now destruct avail. Qed.

(** Every call of the host returns, from every state the bridge can be in. *)
Lemma host_call_total (avail : bool) (c : Call) (w : World) :
  wf avail w = true ->
  exists r w', host_call avail c w = Some (r, w') /\ wf avail w' = true.
Proof.
  intros Hwf. destruct c as [lib path n| |req|req]; unfold host_call, bind, ret.
  - destruct (loadModel_total avail lib path n w Hwf) as (b & w' & -> & Hwf').
    eauto.
  - destruct (unloadModel_total avail w Hwf) as (w' & -> & Hwf' & _). eauto.
  - rewrite chatCompletion_cases. eauto.
  - rewrite chatCompletionStream_cases. eauto.
Qed.

Lemma host_run_total (avail : bool) (cs : list Call) (w : World) :
  wf avail w = true ->
  exists rs w', host_run avail cs w = Some (rs, w') /\ wf avail w' = true.
Proof.
  revert w. induction cs as [|c cs IH]; intros w Hwf; simpl.
  - exists [], w. now split.
  - unfold bind, ret.
    destruct (host_call_total avail c w Hwf) as (r & w1 & -> & Hwf1).
    destruct (IH w1 Hwf1) as (rs & w2 & -> & Hwf2). eauto.
Qed.

(** ** Pairing of the two handles *)

(** A successful [loadModel] leaves both handles present. *)
Lemma loadModel_true_loaded (avail : bool) (lib : LlamaOutcome) (path : string)
    (n : Z) (w w' : World) :
  loadModel avail lib path n w = Some (true, w') ->
  is_null (g_model w') = false /\ is_null (g_ctx w') = false.
Proof.
  destruct avail; [|discriminate].
  destruct (file_loads lib) eqn:Hf; [destruct (context_allocates lib) eqn:Ha|].
  - destruct (loadModel_ok lib path n w Hf Ha) as (w1 & -> & Em & Ec & _).
    intros [= <-]. now rewrite Em, Ec.
  - destruct (loadModel_no_context lib path n w Hf Ha) as (w1 & -> & _).
    discriminate.
  - destruct (loadModel_no_file lib path n w Hf) as (w1 & -> & _). discriminate.
Qed.

(** [loadModel] started with no context held ends with the handles paired,
    whatever the library answers. *)
Lemma loadModel_from_empty_paired (avail : bool) (lib : LlamaOutcome)
    (path : string) (n : Z) (w : World) (b : bool) (w' : World) :
  g_ctx w = None -> paired w = true ->
  loadModel avail lib path n w = Some (b, w') -> paired w' = true.
Proof.
  intros Hc Hp. unfold paired in *. destruct avail.
  - destruct (file_loads lib) eqn:Hf; [destruct (context_allocates lib) eqn:Ha|].
    + destruct (loadModel_ok lib path n w Hf Ha) as (w1 & -> & Em & Ec & _).
      intros [= <- <-]. now rewrite Em, Ec.
    + destruct (loadModel_no_context lib path n w Hf Ha) as (w1 & -> & Em & Ec & _).
      intros [= <- <-]. now rewrite Em, Ec.
    + destruct (loadModel_no_file lib path n w Hf) as (w1 & -> & Em & Ec & _).
      intros [= <- <-]. now rewrite Em, Ec, Hc.
  - destruct (loadModel_unavailable lib path n w) as (w1 & -> & Em & Ec & _).
    intros [= <- <-]. now rewrite Em, Ec.
Qed.

(** A failed first [loadModel] gives back what it took: with nothing held on
    entry and an allocator that hands out an unused address, the handles and
    the library's models and contexts end as they began. *)
Lemma loadModel_failure_from_empty_restores (lib : LlamaOutcome) (path : string)
    (n : Z) (w w' : World) :
  g_model w = None -> g_ctx w = None ->
  fresh (llama w) ∉ models (llama w) ->
  loadModel true lib path n w = Some (false, w') ->
  g_model w' = None /\ g_ctx w' = None /\
  models (llama w') = models (llama w) /\
  contexts (llama w') = contexts (llama w).
Proof.
  intros Hm Hc Hfresh.
  destruct (file_loads lib) eqn:Hf; [destruct (context_allocates lib) eqn:Ha|].
  - destruct (loadModel_ok lib path n w Hf Ha) as (w1 & -> & _). discriminate.
  - destruct (loadModel_no_context lib path n w Hf Ha)
      as (w1 & -> & Em & Ec & Ems & Ecx & _).
    intros [= <-]. rewrite Em, Ec, Ems, Ecx. repeat split.
    apply set_eq. intros x.
    rewrite elem_of_difference, elem_of_union, elem_of_singleton. split.
    + intros [[Hx|Hx] Hne]; [contradiction | assumption].
    + intros Hx. split; [now right|]. intros ->. contradiction.
  - destruct (loadModel_no_file lib path n w Hf)
      as (w1 & -> & Em & Ec & Ems & Ecx & _).
    intros [= <-]. now rewrite Em, Ec, Ems, Ecx, Hc.
Qed.

Lemma host_call_paired (avail : bool) (c : Call) (w : World) (r : Reply) (w' : World) :
  wf avail w = true -> paired w = true ->
  match c with LoadModel _ _ _ => is_null (g_ctx w) | _ => true end = true ->
  host_call avail c w = Some (r, w') -> paired w' = true.
Proof.
  intros Hwf Hp Hc. destruct c as [lib path n| |req|req]; unfold host_call, bind, ret.
  - destruct (loadModel avail lib path n w) as [[b w1]|] eqn:E; [|discriminate].
    intros [= _ <-]. apply (loadModel_from_empty_paired avail lib path n w b w1); auto.
    now destruct (g_ctx w).
  - destruct (unloadModel_total avail w Hwf) as (w1 & -> & _ & Em & Ec).
    intros [= _ <-]. unfold paired. now rewrite Em, Ec.
  - rewrite chatCompletion_cases. now intros [= _ <-].
  - rewrite chatCompletionStream_cases. now intros [= _ <-].
Qed.

(** The pairing of the handles survives every run of a host that never calls
    [loadModel] while a context is held. *)
Lemma paired_when_loads_from_empty (avail : bool) (cs : list Call) (w : World) :
  wf avail w = true -> paired w = true ->
  loads_from_empty avail cs w = true ->
  exists rs w', host_run avail cs w = Some (rs, w') /\ paired w' = true.
Proof.
  revert w. induction cs as [|c cs IH]; intros w Hwf Hp Hd; simpl in *.
  - exists [], w. now split.
  - apply andb_true_iff in Hd as [Hc Hd]. unfold bind, ret.
    destruct (host_call_total avail c w Hwf) as (r & w1 & E & Hwf1).
    unfold after in Hd. rewrite E in *.
    pose proof (host_call_paired avail c w r w1 Hwf Hp Hc E) as Hp1.
    destruct (IH w1 Hwf1 Hp1 Hd) as (rs & w2 & -> & Hp2). eauto.
Qed.

Lemma alloc_ok_fresh (w : World) :
  alloc_ok w -> fresh (llama w) ∉ models (llama w).
Proof. intros H Hin. apply H in Hin. lia. Qed.

Lemma boot_alloc_ok : alloc_ok boot.
Proof. intros h Hin. simpl in Hin. now apply not_elem_of_empty in Hin. Qed.

(** The allocator stays ahead of every model it has handed out. *)
Lemma host_call_alloc_ok (avail : bool) (c : Call) (w : World) (r : Reply) (w' : World) :
  wf avail w = true -> alloc_ok w ->
  host_call avail c w = Some (r, w') -> alloc_ok w'.
Proof.
  intros Hwf Hok. unfold alloc_ok in *.
  destruct c as [lib path n| |req|req]; unfold host_call, bind, ret.
  - destruct avail.
    + destruct (file_loads lib) eqn:Hf; [destruct (context_allocates lib) eqn:Ha|].
      * destruct (loadModel_ok lib path n w Hf Ha) as (w1 & -> & _ & _ & Ems & _ & Efr).
        intros [= _ <-] h. rewrite Ems, Efr, elem_of_union, elem_of_singleton.
        intros [->|Hin]; [|apply Hok in Hin]; lia.
      * destruct (loadModel_no_context lib path n w Hf Ha)
          as (w1 & -> & _ & _ & Ems & _ & Efr).
        intros [= _ <-] h.
        rewrite Ems, Efr, elem_of_difference, elem_of_union, elem_of_singleton.
        intros [[->|Hin] _]; [|apply Hok in Hin]; lia.
      * destruct (loadModel_no_file lib path n w Hf) as (w1 & -> & _ & _ & Ems & _ & Efr).
        intros [= _ <-] h. rewrite Ems, Efr. apply Hok.
    + destruct (loadModel_unavailable lib path n w) as (w1 & -> & _ & _ & El).
      intros [= _ <-] h. rewrite El. apply Hok.
  - destruct avail.
    + destruct (unloadModel_runs w Hwf) as (w1 & -> & _ & _ & Ems & _ & _ & Efr).
      intros [= _ <-] h. rewrite Ems, Efr.
      destruct (g_model w); [rewrite elem_of_difference; intros [Hin _]|]; apply Hok; auto.
    + rewrite unloadModel_unavailable. intros [= _ <-]. exact Hok.
  - rewrite chatCompletion_cases. intros [= _ <-]. exact Hok.
  - rewrite chatCompletionStream_cases. intros [= _ <-]. exact Hok.
Qed.

(** C1, on the code.  After a successful [loadModel], a second [loadModel]
    whose file cannot be read returns false with the model handle absent and
    the context handle of the first load still present: the handles are no
    longer paired. *)
Theorem reload_failure_unpairs_handles :
  exists w,
    host_run true [LoadModel all_ok "/data/models/qwen3-4b.gguf" 2048;
                   LoadModel no_file "/data/models/missing.gguf" 2048] boot
      = Some ([RBool true; RBool false], w) /\
    g_model w = None /\
    g_ctx w = Some 2%positive /\
    paired w = false.
Proof.
  eexists. split; [vm_compute; reflexivity|].
  repeat split.
Qed.

(** C2, on the code.  With a model and a context loaded, a [loadModel] that
    fails does not leave the handles as they were.  When the file cannot be
    read the model handle becomes absent and the context handle stays; when
    the context cannot be allocated both become absent.  In both cases the
    model and the context of the first load stay alive in the library with
    no handle left to release them through. *)
Theorem failed_reload_changes_handles :
  g_model loaded_world = Some 1%positive /\
  g_ctx loaded_world = Some 2%positive /\
  (exists w,
     loadModel true no_file "/data/models/missing.gguf" 2048 loaded_world
       = Some (false, w) /\
     g_model w = None /\ g_ctx w = Some 2%positive /\
     bool_decide (1%positive ∈ models (llama w)) = true) /\
  (exists w,
     loadModel true no_memory "/data/models/qwen3-4b.gguf" 2048 loaded_world
       = Some (false, w) /\
     g_model w = None /\ g_ctx w = None /\
     bool_decide (1%positive ∈ models (llama w)) = true /\
     contexts (llama w) !! 2%positive = Some 1%positive).
Proof.
  split; [reflexivity|]. split; [reflexivity|].
  split; eexists; (split; [vm_compute; reflexivity|]); repeat split.
Qed.

(** * Further properties of the entry points *)

(** ** What every reachable state satisfies *)

Lemma boot_sound : sound boot.
Proof.
  split; simpl.
  - intros h Hin. now apply not_elem_of_empty in Hin.
  - intros c m H. now rewrite lookup_empty in H.
  - discriminate.
  - discriminate.
Qed.

Lemma sound_same_handles (w w' : World) :
  g_model w' = g_model w -> g_ctx w' = g_ctx w -> llama w' = llama w ->
  sound w -> sound w'.
Proof.
  intros Em Ec El [H1 H2 H3 H4].
  split; rewrite ?Em, ?Ec, ?El; assumption.
Qed.

Lemma sound_wf (w : World) : sound w -> wf true w = true.
Proof.
  intros [H1 H2 H3 H4]. unfold wf, live_model, live_context.
  apply andb_true_iff. split.
  - destruct (g_model w) as [m|] eqn:Em; [|reflexivity].
    destruct (H3 m eq_refl) as (c & _ & Hc).
    apply bool_decide_eq_true_2. apply (H2 c m). now apply Hc.
  - destruct (g_ctx w) as [c|] eqn:Ec; [|reflexivity].
    now destruct (H4 c eq_refl) as [m ->].
Qed.

Lemma loadModel_sound (lib : LlamaOutcome) (path : string) (n : Z)
    (w : World) (b : bool) (w' : World) :
  sound w -> loadModel true lib path n w = Some (b, w') -> sound w'.
Proof.
  intros [H1 H2 H3 H4].
  destruct (file_loads lib) eqn:Hf; [destruct (context_allocates lib) eqn:Ha|].
  - destruct (loadModel_ok lib path n w Hf Ha)
      as (w1 & -> & Em & Ec & Ems & Ecx & Efr).
    intros [= _ <-]. split; rewrite ?Em, ?Ec, ?Ems, ?Ecx, ?Efr.
    + intros h. rewrite elem_of_union, elem_of_singleton.
      intros [->|Hin]; [|apply H1 in Hin]; lia.
    + intros c m. rewrite lookup_insert_Some.
      intros [[<- <-]|[Hne Hc]].
      * split; [lia|]. apply elem_of_union_l. now apply elem_of_singleton.
      * destruct (H2 c m Hc) as [Hlt Hin]. split; [lia|].
        now apply elem_of_union_r.
    + intros m [= <-]. eexists. split; [reflexivity|].
      intros c'. rewrite lookup_insert_Some. split.
      * intros [[<- _]|[_ Hc]]; [reflexivity|].
        destruct (H2 c' _ Hc) as [_ Hin]. apply H1 in Hin. lia.
      * intros ->. now left.
    + intros c [= <-]. rewrite lookup_insert_eq. eauto.
  - destruct (loadModel_no_context lib path n w Hf Ha)
      as (w1 & -> & Em & Ec & Ems & Ecx & Efr).
    intros [= _ <-]. split; rewrite ?Em, ?Ec, ?Ems, ?Ecx, ?Efr; try discriminate.
    + intros h. rewrite elem_of_difference, elem_of_union, elem_of_singleton.
      intros [[->|Hin] _]; [|apply H1 in Hin]; lia.
    + intros c m Hc. destruct (H2 c m Hc) as [Hlt Hin]. split; [lia|].
      rewrite elem_of_difference, elem_of_union, elem_of_singleton.
      split; [now right|]. intros ->. apply H1 in Hin. lia.
  - destruct (loadModel_no_file lib path n w Hf)
      as (w1 & -> & Em & Ec & Ems & Ecx & Efr).
    intros [= _ <-]. split; rewrite ?Em, ?Ec, ?Ems, ?Ecx, ?Efr; try discriminate;
      assumption.
Qed.

Lemma unloadModel_sound (w w' : World) :
  sound w -> unloadModel true w = Some (tt, w') -> sound w'.
Proof.
  intros Hs. pose proof (sound_wf w Hs) as Hwf. destruct Hs as [H1 H2 H3 H4].
  destruct (unloadModel_runs w Hwf) as (w1 & -> & Em & Ec & Ems & Ecx & _ & Efr).
  intros [= <-]. split; rewrite ?Em, ?Ec, ?Ems, ?Ecx, ?Efr; try discriminate.
  - intros h Hin. apply H1.
    destruct (g_model w); [now apply elem_of_difference in Hin as [Hin _]|exact Hin].
  - intros c m Hc.
    assert (Hold : contexts (llama w) !! c = Some m /\ g_ctx w <> Some c).
    { destruct (g_ctx w) as [c0|]; [|now split].
      apply lookup_delete_Some in Hc as [Hne Hc]. split; [exact Hc|congruence]. }
    destruct Hold as [Hc0 Hne]. destruct (H2 c m Hc0) as [Hlt Hin].
    split; [exact Hlt|].
    destruct (g_model w) as [m0|] eqn:Em0; [|exact Hin].
    apply elem_of_difference. split; [exact Hin|].
    rewrite elem_of_singleton. intros ->.
    destruct (H3 m0 eq_refl) as (c1 & Ec1 & Huniq).
    apply Huniq in Hc0. apply Hne. now rewrite Ec1, Hc0.
Qed.

Lemma host_call_sound (avail : bool) (c : Call) (w : World) (r : Reply) (w' : World) :
  sound w -> host_call avail c w = Some (r, w') -> sound w'.
Proof.
  intros Hs. destruct c as [lib path n| |req|req]; unfold host_call, bind, ret.
  - destruct (loadModel avail lib path n w) as [[b w1]|] eqn:E; [|discriminate].
    intros [= _ <-]. destruct avail.
    + now apply (loadModel_sound lib path n w b w1).
    + destruct (loadModel_unavailable lib path n w) as (w2 & E2 & Em & Ec & El).
      rewrite E in E2. injection E2 as _ <-.
      now apply (sound_same_handles w w1).
  - destruct (unloadModel avail w) as [[[] w1]|] eqn:E; [|discriminate].
    intros [= _ <-]. destruct avail.
    + now apply (unloadModel_sound w w1).
    + rewrite unloadModel_unavailable in E. now injection E as <-.
  - rewrite chatCompletion_cases. now intros [= _ <-].
  - rewrite chatCompletionStream_cases. now intros [= _ <-].
Qed.

(** Every call sequence runs to its end, with one reply per call, and keeps
    the state sound. *)
Lemma host_run_invariant (avail : bool) (cs : list Call) (w : World) :
  wf avail w = true -> sound w ->
  exists rs w',
    host_run avail cs w = Some (rs, w') /\
    List.length rs = List.length cs /\ wf avail w' = true /\ sound w'.
Proof.
  revert w. induction cs as [|c cs IH]; intros w Hwf Hs; simpl.
  - exists [], w. auto.
  - unfold bind, ret.
    destruct (host_call_total avail c w Hwf) as (r & w1 & E & Hwf1).
    pose proof (host_call_sound avail c w r w1 Hs E) as Hs1. rewrite E.
    destruct (IH w1 Hwf1 Hs1) as (rs & w2 & -> & Hlen & Hwf2 & Hs2).
    exists (r :: rs), w2. simpl. auto.
Qed.

Lemma reachable_sound (avail : bool) (cs : list Call) (rs : list Reply) (w : World) :
  host_run avail cs boot = Some (rs, w) -> wf avail w = true /\ sound w.
Proof.
  intros H.
  destruct (host_run_invariant avail cs boot (boot_wf avail) boot_sound)
    as (rs' & w' & E & _ & Hwf & Hs).
  rewrite E in H. injection H as _ <-. now split.
Qed.

(** ** [loadModel] *)

(** X1.  [loadModel] returns from every state, and its result is true
    exactly when the library is compiled in, the file loads and the context
    is allocated. *)
Theorem loadModel_result (avail : bool) (lib : LlamaOutcome) (path : string)
    (n : Z) (w : World) :
  exists w',
    loadModel avail lib path n w
      = Some (avail && file_loads lib && context_allocates lib, w').
Proof.
  destruct avail; simpl.
  - destruct (file_loads lib) eqn:Hf; [destruct (context_allocates lib) eqn:Ha|]; simpl.
    + destruct (loadModel_ok lib path n w Hf Ha) as (w' & H & _). eauto.
    + destruct (loadModel_no_context lib path n w Hf Ha) as (w' & H & _). eauto.
    + destruct (loadModel_no_file lib path n w Hf) as (w' & H & _). eauto.
  - destruct (loadModel_unavailable lib path n w) as (w' & H & _). eauto.
Qed.

(** X2.  What one [loadModel] asks of the library, in order: backend
    initialisation; the model load with no GPU layers; then, if the model
    loaded, the context creation with the requested size (as an unsigned
    32-bit number), batch 512 and 4 threads; and, if that failed, the release
    of the model just loaded.  The backend is left initialised in every
    case. *)
Theorem loadModel_library_calls (lib : LlamaOutcome) (path : string) (n : Z)
    (w : World) :
  exists b w',
    loadModel true lib path n w = Some (b, w') /\
    backend_up (llama w') = true /\
    calls w' =
      (calls w ++
       BackendInit ::
       (if file_loads lib then
          ModelLoadFromFile path {| n_gpu_layers := 0 |} (Some (fresh (llama w))) ::
          (if context_allocates lib then
             [InitFromModel (fresh (llama w))
                {| n_ctx := n mod 2 ^ 32; n_batch := 512; n_threads := 4 |}
                (Some (Pos.succ (fresh (llama w))))]
           else
             [InitFromModel (fresh (llama w))
                {| n_ctx := n mod 2 ^ 32; n_batch := 512; n_threads := 4 |} None;
              ModelFree (fresh (llama w))])
        else [ModelLoadFromFile path {| n_gpu_layers := 0 |} None]))%list.
Proof.
  unfold loadModel, to_uint32. bridge_unfold.
  destruct (file_loads lib); cbn beta iota.
  - bridge_unfold. cbn [g_model g_ctx llama models contexts fresh backend_up calls logcat].
    rewrite !bool_decide_eq_true_2
      by (apply elem_of_union_l, elem_of_singleton; reflexivity).
    destruct (context_allocates lib); cbn beta iota; bridge_unfold;
      cbn [g_model g_ctx llama models contexts fresh backend_up calls logcat];
      rewrite ?bool_decide_eq_true_2
        by (apply elem_of_union_l, elem_of_singleton; reflexivity);
      eexists; eexists; (split; [reflexivity|]); (split; [reflexivity|]);
      cbn [calls]; now rewrite <- !app_assoc.
  - eexists; eexists. split; [reflexivity|]. split; [reflexivity|].
    cbn [calls]. now rewrite <- !app_assoc.
Qed.

(** X3.  In the build without the library no entry point touches the
    handles, the library state or the library itself; each only reports:
    [loadModel] false, the blocking call the not-available payload, the
    streaming call one [onError]. *)
Theorem unavailable_build_inert (c : Call) (w : World) :
  exists w',
    host_call false c w
      = Some (match c with
              | LoadModel _ _ _ => RBool false
              | UnloadModel => RVoid
              | ChatCompletion _ => RString not_available_payload
              | ChatCompletionStream _ => RTrace [OnError "llama.cpp not available"]
              end, w') /\
    g_model w' = g_model w /\ g_ctx w' = g_ctx w /\
    llama w' = llama w /\ calls w' = calls w.
Proof.
  destruct c; eexists; (split; [reflexivity|]); repeat split.
Qed.

(** X4.  The result of [loadModel] tells whether completions are served
    afterwards, whatever was loaded before the call: after true, the blocking
    call returns the response payload and the streaming call a token and a
    completion; after false, both report that no model is loaded. *)
Theorem load_result_decides_service (lib : LlamaOutcome) (path : string) (n : Z)
    (w : World) (b : bool) (w' : World) (req : string) (pre : list CallbackEvent) :
  loadModel true lib path n w = Some (b, w') ->
  chatCompletion true req w'
    = Some (if b then chat_response else not_loaded_payload, w') /\
  chatCompletionStream true req pre w'
    = Some ((pre ++ if b then [OnToken stream_placeholder; OnComplete stream_response]
                    else [OnError "Model not loaded"])%list, w').
Proof.
  intros H. rewrite chatCompletion_cases, chatCompletionStream_cases.
  assert (Hn : not_loaded w' = negb b).
  { unfold not_loaded.
    destruct (file_loads lib) eqn:Hf; [destruct (context_allocates lib) eqn:Ha|].
    - destruct (loadModel_ok lib path n w Hf Ha) as (w1 & E & Em & Ec & _).
      rewrite E in H. injection H as <- <-. now rewrite Em, Ec.
    - destruct (loadModel_no_context lib path n w Hf Ha) as (w1 & E & Em & Ec & _).
      rewrite E in H. injection H as <- <-. now rewrite Em, Ec.
    - destruct (loadModel_no_file lib path n w Hf) as (w1 & E & Em & _).
      rewrite E in H. injection H as <- <-. now rewrite Em. }
  rewrite Hn. now destruct b.
Qed.

Lemma load_result_decides_service_witness :
  loadModel true no_file "/data/models/missing.gguf" 2048 loaded_world
    = Some (false, after (loadModel true no_file "/data/models/missing.gguf" 2048)
                         loaded_world) /\
  chatCompletion true "{}"
      (after (loadModel true no_file "/data/models/missing.gguf" 2048) loaded_world)
    = Some (not_loaded_payload,
            after (loadModel true no_file "/data/models/missing.gguf" 2048) loaded_world).
Proof.
  split; [vm_compute; reflexivity|].
  apply (load_result_decides_service no_file "/data/models/missing.gguf" 2048
           loaded_world false _ "{}" []).
  vm_compute; reflexivity.
Defined.

(** X5.  One life cycle, started in any state: a load the library serves
    returns true; the two completions are then served; [unloadModel] returns;
    and the two completions then report that no model is loaded. *)
Theorem lifecycle_probe (lib : LlamaOutcome) (path : string) (n : Z)
    (req : string) (w : World) :
  file_loads lib = true -> context_allocates lib = true ->
  exists w',
    host_run true
      [LoadModel lib path n; ChatCompletion req; ChatCompletionStream req;
       UnloadModel; ChatCompletion req; ChatCompletionStream req] w
    = Some ([RBool true; RString chat_response;
             RTrace [OnToken stream_placeholder; OnComplete stream_response];
             RVoid; RString not_loaded_payload;
             RTrace [OnError "Model not loaded"]], w') /\
    g_model w' = None /\ g_ctx w' = None.
Proof.
  intros Hf Ha.
  destruct (loadModel_ok lib path n w Hf Ha) as (w1 & E1 & Em & Ec & Ems & Ecx & _).
  assert (Hwf : wf true w1 = true).
  { unfold wf, live_model, live_context. rewrite Em, Ec, Ems, Ecx.
    rewrite bool_decide_eq_true_2
      by (apply elem_of_union_l, elem_of_singleton; reflexivity).
    now rewrite lookup_insert_eq. }
  destruct (unloadModel_runs w1 Hwf) as (w2 & E2 & Em2 & Ec2 & _).
  exists w2. split; [|now split].
  cbn [host_run host_call]. unfold bind, ret. rewrite E1.
  rewrite chatCompletion_cases, chatCompletionStream_cases.
  unfold not_loaded at 1 2. rewrite Em, Ec. cbn [is_null orb app]. rewrite E2.
  rewrite chatCompletion_cases, chatCompletionStream_cases.
  unfold not_loaded. rewrite Em2, Ec2. reflexivity.
Qed.

Lemma lifecycle_probe_witness :
  file_loads all_ok = true /\ context_allocates all_ok = true /\
  exists w',
    host_run true
      [LoadModel all_ok "/data/models/qwen3-4b.gguf" 2048;
       ChatCompletion "{}"; ChatCompletionStream "{}";
       UnloadModel; ChatCompletion "{}"; ChatCompletionStream "{}"] boot
    = Some ([RBool true; RString chat_response;
             RTrace [OnToken stream_placeholder; OnComplete stream_response];
             RVoid; RString not_loaded_payload;
             RTrace [OnError "Model not loaded"]], w') /\
    g_model w' = None /\ g_ctx w' = None.
Proof.
  split; [reflexivity|]. split; [reflexivity|].
  apply (lifecycle_probe all_ok "/data/models/qwen3-4b.gguf" 2048 "{}" boot);
    reflexivity.
Defined.

(** ** Invariants of every call sequence *)

(** X6.  From process start, every sequence of calls to the four entry
    points runs to its end with one reply per call: the bridge never releases
    a pointer that is not alive, never creates a context from a model that is
    not alive, and never calls through a null method id. *)
Theorem bridge_never_faults (avail : bool) (cs : list Call) :
  exists rs w,
    host_run avail cs boot = Some (rs, w) /\ List.length rs = List.length cs.
Proof.
  destruct (host_run_invariant avail cs boot (boot_wf avail) boot_sound)
    as (rs & w & E & Hlen & _).
  eauto.
Qed.

(** X7.  After every sequence of calls, a held model comes with a held
    context, and that context is one the library created from that model.
    The converse does not hold: a context can be held without a model. *)
Theorem held_model_has_its_context (avail : bool) (cs : list Call) :
  exists rs w,
    host_run avail cs boot = Some (rs, w) /\
    forall m, g_model w = Some m ->
      exists c, g_ctx w = Some c /\ contexts (llama w) !! c = Some m.
Proof.
  destruct (host_run_invariant avail cs boot (boot_wf avail) boot_sound)
    as (rs & w & E & _ & _ & Hs).
  exists rs, w. split; [exact E|].
  intros m Hm. destruct (sound_held w Hs m Hm) as (c & Hc & Huniq).
  exists c. split; [exact Hc|]. now apply Huniq.
Qed.

(** X8.  After every sequence of calls, the handles the bridge holds point to
    a model and a context that are alive, and no context in the library has
    outlived the model it was created from. *)
Theorem no_dangling_pointer (avail : bool) (cs : list Call) :
  exists rs w,
    host_run avail cs boot = Some (rs, w) /\
    (forall m, g_model w = Some m -> m ∈ models (llama w)) /\
    (forall c, g_ctx w = Some c -> is_Some (contexts (llama w) !! c)) /\
    (forall c m, contexts (llama w) !! c = Some m -> m ∈ models (llama w)).
Proof.
  destruct (host_run_invariant avail cs boot (boot_wf avail) boot_sound)
    as (rs & w & E & _ & _ & Hs).
  exists rs, w. split; [exact E|]. split; [|split].
  - intros m Hm. destruct (sound_held w Hs m Hm) as (c & _ & Huniq).
    apply (sound_contexts w Hs c m). now apply Huniq.
  - apply (sound_ctx w Hs).
  - intros c m Hc. now apply (sound_contexts w Hs c m).
Qed.

(** ** Loading and unloading together *)

(** X9.  In any state the bridge can reach with no context held, a
    successful [loadModel] followed by [unloadModel] gives back everything it
    took: both handles are absent again and the library holds the models and
    contexts it held before. *)
Theorem load_unload_round_trip (cs : list Call) (rs : list Reply) (w : World)
    (lib : LlamaOutcome) (path : string) (n : Z) :
  host_run true cs boot = Some (rs, w) ->
  g_ctx w = None ->
  file_loads lib = true -> context_allocates lib = true ->
  exists w1 w2,
    loadModel true lib path n w = Some (true, w1) /\
    unloadModel true w1 = Some (tt, w2) /\
    g_model w2 = None /\ g_ctx w2 = None /\
    models (llama w2) = models (llama w) /\
    contexts (llama w2) = contexts (llama w).
Proof.
  intros Hrun Hc Hf Ha.
  destruct (reachable_sound true cs rs w Hrun) as [_ Hs].
  destruct (loadModel_ok lib path n w Hf Ha) as (w1 & E1 & Em & Ec & Ems & Ecx & _).
  assert (Hs1 : sound w1) by exact (loadModel_sound lib path n w true w1 Hs E1).
  destruct (unloadModel_runs w1 (sound_wf w1 Hs1))
    as (w2 & E2 & Em2 & Ec2 & Ems2 & Ecx2 & _).
  exists w1, w2. do 4 (split; [assumption|]).
  rewrite Ems2, Ecx2, Em, Ec, Ems, Ecx. split.
  - apply set_eq. intros x.
    rewrite elem_of_difference, elem_of_union, elem_of_singleton. split.
    + intros [[Hx|Hx] Hne]; [contradiction | assumption].
    + intros Hx. split; [now right|]. intros ->.
      apply (sound_models w Hs) in Hx. lia.
  - apply delete_insert_id.
    destruct (contexts (llama w) !! Pos.succ (fresh (llama w))) as [m|] eqn:E;
      [|exact E].
    apply (sound_contexts w Hs) in E as [Hlt _]. lia.
Qed.

Lemma load_unload_round_trip_witness :
  host_run true [LoadModel no_memory "/data/models/qwen3-4b.gguf" 2048] boot
    = Some ([RBool false],
            after (loadModel true no_memory "/data/models/qwen3-4b.gguf" 2048) boot) /\
  g_ctx (after (loadModel true no_memory "/data/models/qwen3-4b.gguf" 2048) boot)
    = None /\
  exists w1 w2,
    loadModel true all_ok "/data/models/qwen3-4b.gguf" 2048
        (after (loadModel true no_memory "/data/models/qwen3-4b.gguf" 2048) boot)
      = Some (true, w1) /\
    unloadModel true w1 = Some (tt, w2) /\
    models (llama w2)
      = models (llama (after (loadModel true no_memory
                                "/data/models/qwen3-4b.gguf" 2048) boot)).
Proof.
  split; [vm_compute; reflexivity|]. split; [reflexivity|].
  destruct (load_unload_round_trip
              [LoadModel no_memory "/data/models/qwen3-4b.gguf" 2048] [RBool false]
              (after (loadModel true no_memory "/data/models/qwen3-4b.gguf" 2048) boot)
              all_ok "/data/models/qwen3-4b.gguf" 2048)
    as (w1 & w2 & H1 & H2 & _ & _ & H3 & _);
    [vm_compute; reflexivity | reflexivity | reflexivity | reflexivity |].
  exists w1, w2. auto.
Defined.

(** X10.  [loadModel] does not release what is already loaded.  In any
    reachable state that holds a model, a second successful load takes new
    handles, and the [unloadModel] after it releases only those: the first
    model and its context stay alive in the library while both handles are
    absent. *)
Theorem reload_leaks_previous_pair (cs : list Call) (rs : list Reply) (w : World)
    (m : handle) (lib : LlamaOutcome) (path : string) (n : Z) :
  host_run true cs boot = Some (rs, w) ->
  g_model w = Some m ->
  file_loads lib = true -> context_allocates lib = true ->
  exists c w1 w2,
    g_ctx w = Some c /\
    loadModel true lib path n w = Some (true, w1) /\
    g_model w1 <> Some m /\ g_ctx w1 <> Some c /\
    unloadModel true w1 = Some (tt, w2) /\
    g_model w2 = None /\ g_ctx w2 = None /\
    m ∈ models (llama w2) /\
    contexts (llama w2) !! c = Some m.
Proof.
  intros Hrun Hm Hf Ha.
  destruct (reachable_sound true cs rs w Hrun) as [_ Hs].
  destruct (sound_held w Hs m Hm) as (c & Hc & Huniq).
  assert (Hcm : contexts (llama w) !! c = Some m) by now apply Huniq.
  destruct (sound_contexts w Hs c m Hcm) as [Hclt Hmin].
  pose proof (sound_models w Hs m Hmin) as Hmlt.
  destruct (loadModel_ok lib path n w Hf Ha) as (w1 & E1 & Em & Ec & Ems & Ecx & _).
  assert (Hs1 : sound w1) by exact (loadModel_sound lib path n w true w1 Hs E1).
  destruct (unloadModel_runs w1 (sound_wf w1 Hs1))
    as (w2 & E2 & Em2 & Ec2 & Ems2 & Ecx2 & _).
  exists c, w1, w2.
  split; [exact Hc|]. split; [exact E1|].
  split; [rewrite Em; intros [= E]; lia|].
  split; [rewrite Ec; intros [= E]; lia|].
  split; [exact E2|]. split; [exact Em2|]. split; [exact Ec2|].
  rewrite Ems2, Ecx2, Em, Ec, Ems, Ecx. split.
  - rewrite elem_of_difference, elem_of_union, elem_of_singleton.
    split; [now right|]. intros E. lia.
  - rewrite lookup_delete_ne by lia. rewrite lookup_insert_ne by lia. exact Hcm.
Qed.

Lemma reload_leaks_previous_pair_witness :
  host_run true [LoadModel all_ok "/data/models/qwen3-4b.gguf" 2048] boot
    = Some ([RBool true], loaded_world) /\
  g_model loaded_world = Some 1%positive /\
  exists c w1 w2,
    g_ctx loaded_world = Some c /\
    loadModel true all_ok "/data/models/other.gguf" 4096 loaded_world
      = Some (true, w1) /\
    unloadModel true w1 = Some (tt, w2) /\
    g_model w2 = None /\ g_ctx w2 = None /\
    1%positive ∈ models (llama w2) /\
    contexts (llama w2) !! c = Some 1%positive.
Proof.
  split; [vm_compute; reflexivity|]. split; [reflexivity|].
  destruct (reload_leaks_previous_pair
              [LoadModel all_ok "/data/models/qwen3-4b.gguf" 2048] [RBool true]
              loaded_world 1%positive all_ok "/data/models/other.gguf" 4096)
    as (c & w1 & w2 & H1 & H2 & _ & _ & H3 & H4 & H5 & H6 & H7);
    [vm_compute; reflexivity | reflexivity | reflexivity | reflexivity |].
  exists c, w1, w2. auto 10.
Defined.

(** X11.  [unloadModel] releases the held context and the held model and
    nothing else: every other model and context the library holds stays
    alive, and the backend is released. *)
Theorem unloadModel_releases_only_held (w : World) :
  wf true w = true ->
  exists w',
    unloadModel true w = Some (tt, w') /\
    backend_up (llama w') = false /\
    (forall h, h ∈ models (llama w') <->
               h ∈ models (llama w) /\ g_model w <> Some h) /\
    (forall c m, contexts (llama w') !! c = Some m <->
                 contexts (llama w) !! c = Some m /\ g_ctx w <> Some c).
Proof.
  intros Hwf.
  destruct (unloadModel_runs w Hwf) as (w' & E & _ & _ & Ems & Ecx & _).
  exists w'. split; [exact E|]. split.
  - revert E. clear. destruct w as [gm gc [bu ms cx fr] cs lg].
    unfold unloadModel. bridge_unfold. simpl.
    destruct gc as [c|]; simpl.
    + destruct (cx !! c); [|discriminate]. simpl.
      destruct gm as [m|]; simpl.
      * destruct (bool_decide (m ∈ ms)); [|discriminate]. now intros [= <-].
      * now intros [= <-].
    + destruct gm as [m|]; simpl.
      * destruct (bool_decide (m ∈ ms)); [|discriminate]. now intros [= <-].
      * now intros [= <-].
  - rewrite Ems, Ecx. split.
    + intros h. destruct (g_model w) as [m0|].
      * rewrite elem_of_difference, elem_of_singleton. split.
        -- intros [Hin Hne]. split; [exact Hin|]. intros [= ->]. now apply Hne.
        -- intros [Hin Hne]. split; [exact Hin|]. intros ->. now apply Hne.
      * split; [intros Hin; split; [exact Hin|discriminate] | now intros [Hin _]].
    + intros c m. destruct (g_ctx w) as [c0|].
      * rewrite lookup_delete_Some. split.
        -- intros [Hne Hc]. split; [exact Hc|]. intros [= ->]. now apply Hne.
        -- intros [Hc Hne]. split; [|exact Hc]. intros ->. now apply Hne.
      * split; [intros Hc; split; [exact Hc|discriminate] | now intros [Hc _]].
Qed.

Lemma unloadModel_releases_only_held_witness :
  wf true loaded_world = true /\
  exists w',
    unloadModel true loaded_world = Some (tt, w') /\
    backend_up (llama w') = false.
Proof.
  split; [vm_compute; reflexivity|].
  destruct (unloadModel_releases_only_held loaded_world) as (w' & H1 & H2 & _);
    [vm_compute; reflexivity|].
  exists w'. auto.
Defined.

(** ** Payloads and callbacks *)

(** X12.  Whatever the build, the state and the request, the string the
    blocking call returns is well-formed JSON of one of two shapes: an object
    whose only member is [error], or an object with a [choices] array whose
    first message has the role "assistant" and a string content, and no
    [error] member. *)
Theorem chatCompletion_payload_shapes (avail : bool) (req : string) (w : World) :
  exists p j,
    chatCompletion avail req w = Some (p, w) /\
    read_json p = Some j /\
    ((exists message, error_shaped p = Some message /\
                      select [Key "choices"] j = None)
     \/
     (exists content,
        select [Key "choices"; Idx 0; Key "message"; Key "content"] j
          = Some (JStr content) /\
        select [Key "choices"; Idx 0; Key "message"; Key "role"] j
          = Some (JStr "assistant") /\
        select [Key "error"] j = None)).
Proof.
  rewrite chatCompletion_cases.
  destruct avail; [destruct (not_loaded w)|].
  - exists not_loaded_payload. eexists. split; [reflexivity|].
    split; [vm_compute; reflexivity|].
    left. eexists. split; vm_compute; reflexivity.
  - exists chat_response. eexists. split; [reflexivity|].
    split; [vm_compute; reflexivity|].
    right. eexists. repeat split; vm_compute; reflexivity.
  - exists not_available_payload. eexists. split; [reflexivity|].
    split; [vm_compute; reflexivity|].
    left. eexists. split; vm_compute; reflexivity.
Qed.

(** X13.  When a model is loaded, the payload the streaming call passes to
    [onComplete] is well-formed JSON whose message content is the text that
    was passed to [onToken]; its role is "assistant", its finish reason
    "stop", and, unlike the blocking payload, it has no [usage] member. *)
Theorem stream_final_payload_matches_token (req : string)
    (pre : list CallbackEvent) (w : World) (m c : handle) :
  g_model w = Some m -> g_ctx w = Some c ->
  exists text p j,
    chatCompletionStream true req pre w
      = Some ((pre ++ [OnToken text; OnComplete p])%list, w) /\
    read_json p = Some j /\
    select [Key "choices"; Idx 0; Key "message"; Key "content"] j
      = Some (JStr text) /\
    select [Key "choices"; Idx 0; Key "message"; Key "role"] j
      = Some (JStr "assistant") /\
    select [Key "choices"; Idx 0; Key "finish_reason"] j = Some (JStr "stop") /\
    select [Key "usage"] j = None.
Proof.
  intros Hm Hc. rewrite chatCompletionStream_cases.
  unfold not_loaded. rewrite Hm, Hc. cbn [is_null orb].
  exists stream_placeholder, stream_response. eexists.
  split; [reflexivity|]. split; [vm_compute; reflexivity|].
  repeat split; vm_compute; reflexivity.
Qed.

Lemma stream_final_payload_matches_token_witness :
  g_model loaded_world = Some 1%positive /\
  g_ctx loaded_world = Some 2%positive /\
  exists text p,
    chatCompletionStream true "{}" [] loaded_world
      = Some ([OnToken text; OnComplete p], loaded_world).
Proof.
  split; [reflexivity|]. split; [reflexivity|].
  destruct (stream_final_payload_matches_token "{}" [] loaded_world
              1%positive 2%positive) as (text & p & j & H & _);
    [reflexivity | reflexivity |].
  exists text, p. exact H.
Defined.
